(** * clightningrpc: the Request / Response core of [src/lib.rs]

    A shallow embedding of the JSON-RPC data model of the crate
    [clightningrpc] and of the four extraction operations of [impl Response]
    ([result], [into_result], [check_error], [is_none]), together with the
    serde-derived wire encoding of [Request] and [Response] over the
    [strason::Json] tree. *)

From Stdlib Require Import String List ZArith Bool Permutation Lia.
Import ListNotations.
Open Scope string_scope.
#[local] Set Warnings "-register-all".

(* ------------------------------------------------------------------ *)
(** ** Rust's [Result] *)

Inductive result (A E : Type) : Type :=
| Ok : A -> result A E
| Err : E -> result A E.
Arguments Ok {A E} _.
Arguments Err {A E} _.

Definition map_err {A E F : Type} (f : E -> F) (r : result A E) : result A F :=
  match r with
  | Ok a => Ok a
  | Err e => Err (f e)
  end.

Definition bind_result {A B E : Type} (r : result A E) (k : A -> result B E)
  : result B E :=
  match r with
  | Ok a => k a
  | Err e => Err e
  end.

Notation "x <- r ;; k" := (bind_result r (fun x => k))
  (at level 61, r at next level, right associativity).

(* ------------------------------------------------------------------ *)
(** ** [strason::Json]: the generic structured value

    Numbers are kept as integers: the only numbers this core reads are
    the error [code] and caller-chosen ids, and no claim depends on the
    representation of fractional numbers.  Objects are association lists
    in insertion order, as [strason] keeps them. *)

Inductive Json : Type :=
| JNull : Json
| JBool : bool -> Json
| JNumber : Z -> Json
| JString : string -> Json
| JArray : list Json -> Json
| JObject : list (string * Json) -> Json.

(** Errors of [strason]'s [into_deserialize] (the parts of [strason::Error]
    the derived decoders of this file raise). *)
Inductive DecodeError : Type :=
| InvalidType : DecodeError
| MissingField : string -> DecodeError
| DuplicateField : string -> DecodeError
| InvalidLength : nat -> DecodeError.

(* ------------------------------------------------------------------ *)
(** ** [error::RpcError] and [error::Error] *)

(** Modelled from the spec: [error::RpcError] (the module [error] is not
    part of the sources): "code: signed integer error code; message:
    human-readable string; data: optional Value", a plain serde-derived
    struct. *)
Record RpcError : Type := mkRpcError {
  code : Z;
  message : string;
  data : option Json
}.

(** Modelled from the spec: [error::Error] (the module [error] is not part
    of the sources): a closed sum of a decode error ([Json]), the daemon's
    error ([Rpc]), the protocol violation [NoErrorOrResult], and the
    transport's pass-through kind ([Io]). *)
Inductive Error : Type :=
| Error_Json : DecodeError -> Error
| Error_Rpc : RpcError -> Error
| Error_NoErrorOrResult : Error
| Error_Io : string -> Error.

(* ------------------------------------------------------------------ *)
(** ** [Request] and [Response] (src/lib.rs lines 52-76) *)

Record Request : Type := mkRequest {
  method : string;
  params : Json;
  req_id : Json;
  req_jsonrpc : option string
}.

Record Response : Type := mkResponse {
  result_field : option Json;
  error : option RpcError;
  id : Json;
  jsonrpc : option string
}.

(* ------------------------------------------------------------------ *)
(** ** [impl Response] (src/lib.rs lines 78-115)

    [T] is the caller's [DeserializeOwned] target type and
    [into_deserialize] is [strason]'s [Json::into_deserialize::<T>]. *)

Section Extraction.
Variable T : Type.
Variable into_deserialize : Json -> result T DecodeError.

(** [pub fn result<T>(&self) -> Result<T, Error>] *)
Definition result_ (self : Response) : result T Error :=
  match error self with
  | Some e => Err (Error_Rpc e)            (* e.clone() *)
  | None =>
      match result_field self with
      | Some res => map_err Error_Json (into_deserialize res)
      | None => Err Error_NoErrorOrResult
      end
  end.

(** [pub fn into_result<T>(self) -> Result<T, Error>] *)
Definition into_result (self : Response) : result T Error :=
  match self with
  | mkResponse res err _ _ =>
      match err with
      | Some e => Err (Error_Rpc e)
      | None =>
          match res with
          | Some res => map_err Error_Json (into_deserialize res)
          | None => Err Error_NoErrorOrResult
          end
      end
  end.

End Extraction.

(** [pub fn check_error(self) -> Result<(), Error>] *)
Definition check_error (self : Response) : result unit Error :=
  match error self with
  | Some e => Err (Error_Rpc e)
  | None => Ok tt
  end.

(** [pub fn is_none(&self) -> bool] *)
Definition is_none (self : Response) : bool :=
  match result_field self with
  | None => true
  | Some _ => false
  end.

(* ------------------------------------------------------------------ *)
(** ** The serde-derived wire encoding

    [#[derive(Serialize, Deserialize)]] on [Request], [Response] and
    [RpcError], run through [Json::from_serialize] and
    [Json::into_deserialize].  A struct serializes to an object with one
    entry per field in declaration order; an [Option] field serializes
    [None] as [null]; a [Json] field serializes to itself.  The derived
    [visit_map] reads the entries in order, ignores unknown keys, rejects a
    repeated field, decodes [null] (or a missing entry) of an [Option]
    field as [None], and fails on a missing non-[Option] field.  The
    derived [visit_seq] reads a struct given as an array, one element per
    field in declaration order. *)

Definition ser_option {A : Type} (ser : A -> Json) (o : option A) : Json :=
  match o with
  | Some a => ser a
  | None => JNull
  end.

Definition de_option {A : Type} (de : Json -> result A DecodeError) (v : Json)
  : result (option A) DecodeError :=
  match v with
  | JNull => Ok None
  | _ => x <- de v ;; Ok (Some x)
  end.

Fixpoint string_of_uint (d : Decimal.uint) : string :=
  match d with
  | Decimal.Nil => ""
  | Decimal.D0 d => "0" ++ string_of_uint d
  | Decimal.D1 d => "1" ++ string_of_uint d
  | Decimal.D2 d => "2" ++ string_of_uint d
  | Decimal.D3 d => "3" ++ string_of_uint d
  | Decimal.D4 d => "4" ++ string_of_uint d
  | Decimal.D5 d => "5" ++ string_of_uint d
  | Decimal.D6 d => "6" ++ string_of_uint d
  | Decimal.D7 d => "7" ++ string_of_uint d
  | Decimal.D8 d => "8" ++ string_of_uint d
  | Decimal.D9 d => "9" ++ string_of_uint d
  end.

(** The digit string [strason] keeps for a number. *)
Definition string_of_Z (n : Z) : string :=
  match Z.to_int n with
  | Decimal.Pos u => string_of_uint u
  | Decimal.Neg u => "-" ++ string_of_uint u
  end.

(** [String]: [strason] hands a string over as it is, and a number as its
    digit string. *)
Definition de_string (v : Json) : result string DecodeError :=
  match v with
  | JString s => Ok s
  | JNumber n => Ok (string_of_Z n)
  | _ => Err InvalidType
  end.

Definition de_int (v : Json) : result Z DecodeError :=
  match v with
  | JNumber n => Ok n
  | _ => Err InvalidType
  end.

Definition de_json (v : Json) : result Json DecodeError := Ok v.

(** A required field at the end of [visit_map]. *)
Definition required {A : Type} (name : string) (slot : option A)
  : result A DecodeError :=
  match slot with
  | Some a => Ok a
  | None => Err (MissingField name)
  end.

(** An [Option] field at the end of [visit_map]: missing means [None]. *)
Definition optional {A : Type} (slot : option (option A)) : option A :=
  match slot with
  | Some a => a
  | None => None
  end.

(** The derived [visit_seq] (a struct given as an array, field by field
    in declaration order): the next element, or [invalid_length] when the
    array is too short. *)
Definition next_element {A B : Type} (idx : nat) (vs : list Json)
  (de : Json -> result A DecodeError) (k : A -> list Json -> result B DecodeError)
  : result B DecodeError :=
  match vs with
  | [] => Err (InvalidLength idx)
  | v :: rest => x <- de v ;; k x rest
  end.

(** The end of the array: elements left over are refused with
    [invalid_length], as serde's [SeqDeserializer] does at its end. *)
Definition seq_end {B : Type} (len : nat) (vs : list Json) (b : B)
  : result B DecodeError :=
  match vs with
  | [] => Ok b
  | _ => Err (InvalidLength (len + length vs))
  end.

(** Store the next value of a field, rejecting a repeated one. *)
Definition store {A B : Type} (name : string) (slot : option A)
  (de : Json -> result A DecodeError) (v : Json)
  (k : option A -> result B DecodeError) : result B DecodeError :=
  match slot with
  | Some _ => Err (DuplicateField name)
  | None => x <- de v ;; k (Some x)
  end.

(** *** [RpcError] *)

Definition ser_RpcError (e : RpcError) : Json :=
  JObject [("code", JNumber (code e));
           ("message", JString (message e));
           ("data", ser_option (fun j => j) (data e))].

Fixpoint visit_RpcError (kvs : list (string * Json)) (c : option Z)
  (m : option string) (d : option (option Json)) : result RpcError DecodeError :=
  match kvs with
  | [] =>
      c' <- required "code" c ;;
      m' <- required "message" m ;;
      Ok (mkRpcError c' m' (optional d))
  | (k, v) :: rest =>
      if String.eqb k "code" then
        store "code" c de_int v (fun c => visit_RpcError rest c m d)
      else if String.eqb k "message" then
        store "message" m de_string v (fun m => visit_RpcError rest c m d)
      else if String.eqb k "data" then
        store "data" d (de_option de_json) v (fun d => visit_RpcError rest c m d)
      else visit_RpcError rest c m d
  end.

Definition visit_seq_RpcError (vs : list Json) : result RpcError DecodeError :=
  next_element 0 vs de_int (fun c vs =>
  next_element 1 vs de_string (fun m vs =>
  next_element 2 vs (de_option de_json) (fun d vs =>
  seq_end 3 vs (mkRpcError c m d)))).

Definition de_RpcError (v : Json) : result RpcError DecodeError :=
  match v with
  | JObject kvs => visit_RpcError kvs None None None
  | JArray vs => visit_seq_RpcError vs
  | _ => Err InvalidType
  end.

(** *** [Request] *)

Definition ser_Request (r : Request) : Json :=
  JObject [("method", JString (method r));
           ("params", params r);
           ("id", req_id r);
           ("jsonrpc", ser_option JString (req_jsonrpc r))].

Fixpoint visit_Request (kvs : list (string * Json)) (m : option string)
  (p i : option Json) (j : option (option string)) : result Request DecodeError :=
  match kvs with
  | [] =>
      m' <- required "method" m ;;
      p' <- required "params" p ;;
      i' <- required "id" i ;;
      Ok (mkRequest m' p' i' (optional j))
  | (k, v) :: rest =>
      if String.eqb k "method" then
        store "method" m de_string v (fun m => visit_Request rest m p i j)
      else if String.eqb k "params" then
        store "params" p de_json v (fun p => visit_Request rest m p i j)
      else if String.eqb k "id" then
        store "id" i de_json v (fun i => visit_Request rest m p i j)
      else if String.eqb k "jsonrpc" then
        store "jsonrpc" j (de_option de_string) v
          (fun j => visit_Request rest m p i j)
      else visit_Request rest m p i j
  end.

Definition visit_seq_Request (vs : list Json) : result Request DecodeError :=
  next_element 0 vs de_string (fun m vs =>
  next_element 1 vs de_json (fun p vs =>
  next_element 2 vs de_json (fun i vs =>
  next_element 3 vs (de_option de_string) (fun j vs =>
  seq_end 4 vs (mkRequest m p i j))))).

Definition de_Request (v : Json) : result Request DecodeError :=
  match v with
  | JObject kvs => visit_Request kvs None None None None
  | JArray vs => visit_seq_Request vs
  | _ => Err InvalidType
  end.

(** *** [Response] *)

Definition ser_Response (s : Response) : Json :=
  JObject [("result", ser_option (fun j => j) (result_field s));
           ("error", ser_option ser_RpcError (error s));
           ("id", id s);
           ("jsonrpc", ser_option JString (jsonrpc s))].

Fixpoint visit_Response (kvs : list (string * Json))
  (r : option (option Json)) (e : option (option RpcError))
  (i : option Json) (j : option (option string)) : result Response DecodeError :=
  match kvs with
  | [] =>
      i' <- required "id" i ;;
      Ok (mkResponse (optional r) (optional e) i' (optional j))
  | (k, v) :: rest =>
      if String.eqb k "result" then
        store "result" r (de_option de_json) v
          (fun r => visit_Response rest r e i j)
      else if String.eqb k "error" then
        store "error" e (de_option de_RpcError) v
          (fun e => visit_Response rest r e i j)
      else if String.eqb k "id" then
        store "id" i de_json v (fun i => visit_Response rest r e i j)
      else if String.eqb k "jsonrpc" then
        store "jsonrpc" j (de_option de_string) v
          (fun j => visit_Response rest r e i j)
      else visit_Response rest r e i j
  end.

Definition visit_seq_Response (vs : list Json) : result Response DecodeError :=
  next_element 0 vs (de_option de_json) (fun r vs =>
  next_element 1 vs (de_option de_RpcError) (fun e vs =>
  next_element 2 vs de_json (fun i vs =>
  next_element 3 vs (de_option de_string) (fun j vs =>
  seq_end 4 vs (mkResponse r e i j))))).

Definition de_Response (v : Json) : result Response DecodeError :=
  match v with
  | JObject kvs => visit_Response kvs None None None None
  | JArray vs => visit_seq_Response vs
  | _ => Err InvalidType
  end.

(* ------------------------------------------------------------------ *)
(** ** A concrete target type: [Vec<String>] *)

Fixpoint de_vec_string_items (vs : list Json) : result (list string) DecodeError :=
  match vs with
  | [] => Ok []
  | v :: rest => s <- de_string v ;; ss <- de_vec_string_items rest ;; Ok (s :: ss)
  end.

Definition de_vec_string (v : Json) : result (list string) DecodeError :=
  match v with
  | JArray vs => de_vec_string_items vs
  | _ => Err InvalidType
  end.

(** The [Option] fields that do not survive the wire: a [Some null] is read
    back as [None]. *)
Definition collapse_null (o : option Json) : option Json :=
  match o with
  | Some JNull => None
  | o => o
  end.

Definition collapse_null_RpcError (e : RpcError) : RpcError :=
  mkRpcError (code e) (message e) (collapse_null (data e)).

Definition collapse_null_Response (s : Response) : Response :=
  mkResponse (collapse_null (result_field s))
    (option_map collapse_null_RpcError (error s)) (id s) (jsonrpc s).

(** The test [response_serialize_round_trip] (src/lib.rs lines 144-167). *)
Definition test_response : Response :=
  mkResponse (Some (JArray [JNull; JBool false; JBool true; JString "test2"]))
    (Some (mkRpcError (-77) "test4" (Some (JBool true))))
    (JNumber 101) (Some "2.0").

Example test_response_round_trip : de_Response (ser_Response test_response) = Ok test_response.
Proof. reflexivity. Qed.

Example numeric_method_decodes :
  de_Request (JObject [("method", JNumber 5); ("params", JNull); ("id", JNumber 1)])
  = Ok (mkRequest "5" JNull (JNumber 1) None).
Proof. reflexivity. Qed.

Example array_request_decodes :
  de_Request (JArray [JString "m"; JNull; JNumber 1; JNull])
  = Ok (mkRequest "m" JNull (JNumber 1) None).
Proof. reflexivity. Qed.

Example array_response_decodes :
  de_Response (JArray [JBool true; JNull; JNumber 1; JString "2.0"])
  = Ok (mkResponse (Some (JBool true)) None (JNumber 1) (Some "2.0")).
Proof. reflexivity. Qed.

Example numeric_jsonrpc_decodes :
  de_Response (JObject [("id", JNumber 1); ("jsonrpc", JNumber 2)])
  = Ok (mkResponse None None (JNumber 1) (Some "2")).
Proof. reflexivity. Qed.

Example short_array_request_refused :
  de_Request (JArray [JString "m"; JNull; JNumber 1]) = Err (InvalidLength 3).
Proof. reflexivity. Qed.

Example negative_number_string : string_of_Z (-77) = "-77".
Proof. reflexivity. Qed.

Example test_response_extract :
  result_ _ de_vec_string
    (mkResponse (Some (JArray [JString "Mary"; JString "had"; JString "a";
                               JString "little"; JString "lamb"]))
       None JNull (Some "2.0"))
  = Ok ["Mary"; "had"; "a"; "little"; "lamb"].
Proof. reflexivity. Qed.

(* ================================================================== *)
(** * Properties *)

Lemma de_option_json (v : Json) :
  de_option de_json v = Ok (collapse_null (Some v)).
Proof. destruct v; reflexivity. Qed.

Lemma RpcError_round_trip (e : RpcError) :
  de_RpcError (ser_RpcError e) = Ok (collapse_null_RpcError e).
Proof.
  destruct e as [c m [d|]]; cbn; [| reflexivity].
  rewrite de_option_json; reflexivity.
Qed.

(** C1: when [error] is present, [result] and [into_result] both fail with
    [Error::Rpc] of exactly that error, whatever [result] holds and
    whatever the decoder would do with it. *)
Theorem error_precedence (T : Type) (de : Json -> result T DecodeError)
  (s : Response) (e : RpcError) (Herr : error s = Some e) :
  result_ T de s = Err (Error_Rpc e) /\ into_result T de s = Err (Error_Rpc e).
Proof.
  destruct s as [r err i j]; cbn in Herr; subst err.
  split; reflexivity.
Qed.

Lemma error_precedence_witness :
  error test_response = Some (mkRpcError (-77) "test4" (Some (JBool true))) /\
  result_ _ de_json test_response = Err (Error_Rpc (mkRpcError (-77) "test4" (Some (JBool true)))) /\
  into_result _ de_json test_response = Err (Error_Rpc (mkRpcError (-77) "test4" (Some (JBool true)))).
Proof.
  split; [reflexivity |].
  apply (error_precedence _ de_json test_response); reflexivity.
Defined.

(** C2: the borrowing [result] and the consuming [into_result] give the
    same outcome on every Response and for every target type. *)
Theorem result_into_result_equiv (T : Type) (de : Json -> result T DecodeError)
  (s : Response) :
  result_ T de s = into_result T de s.
Proof. destruct s as [[r|] [e|] i j]; reflexivity. Qed.

(** C3: [result] and [into_result] fail with [NoErrorOrResult] exactly
    when both [result] and [error] are absent; this error kind is distinct
    from [Error::Rpc] and [Error::Json]. *)
Theorem no_payload_distinction (T : Type) (de : Json -> result T DecodeError)
  (s : Response) :
  (result_ T de s = Err Error_NoErrorOrResult <->
     result_field s = None /\ error s = None) /\
  (into_result T de s = Err Error_NoErrorOrResult <->
     result_field s = None /\ error s = None) /\
  (forall e d, Error_NoErrorOrResult <> Error_Rpc e /\
               Error_NoErrorOrResult <> Error_Json d).
Proof.
  assert (Hr : result_ T de s = Err Error_NoErrorOrResult <->
               result_field s = None /\ error s = None).
  { destruct s as [[r|] [e|] i j]; cbn; split;
      try (intros [H1 H2]; discriminate); try discriminate; auto.
    destruct (de r); cbn; discriminate. }
  split; [exact Hr |]. split.
  - rewrite <- result_into_result_equiv; exact Hr.
  - intros e d; split; discriminate.
Qed.

(** C4: with [error] absent and [result] present, a decode failure is
    returned as [Error::Json] of the decoder's own error, and a successful
    decode is returned as [Ok] of the decoded value. *)
Theorem decode_failure_surfacing (T : Type) (de : Json -> result T DecodeError)
  (s : Response) (v : Json) (Herr : error s = None) (Hres : result_field s = Some v) :
  (forall d, de v = Err d ->
     result_ T de s = Err (Error_Json d) /\ into_result T de s = Err (Error_Json d)) /\
  (forall x, de v = Ok x -> result_ T de s = Ok x /\ into_result T de s = Ok x).
Proof.
  destruct s as [r err i j]; cbn in Herr, Hres; subst r err; cbn.
  split; intros ? H; rewrite H; split; reflexivity.
Qed.

Lemma decode_failure_surfacing_witness :
  let s := mkResponse (Some (JArray [JString "Mary"; JBool true])) None JNull None in
  error s = None /\ result_field s = Some (JArray [JString "Mary"; JBool true]) /\
  result_ _ de_vec_string s = Err (Error_Json InvalidType) /\
  into_result _ de_vec_string s = Err (Error_Json InvalidType).
Proof.
  cbn zeta. split; [reflexivity |]. split; [reflexivity |].
  apply (proj1 (decode_failure_surfacing _ de_vec_string
    (mkResponse (Some (JArray [JString "Mary"; JBool true])) None JNull None)
    (JArray [JString "Mary"; JBool true]) eq_refl eq_refl) InvalidType).
  reflexivity.
Defined.

(** C5: [check_error] fails with [Error::Rpc e] exactly when [error] is
    [Some e], succeeds with [()] exactly when [error] is absent, and
    depends on no other field. *)
Theorem check_error_contract (s : Response) :
  (forall e, check_error s = Err (Error_Rpc e) <-> error s = Some e) /\
  (check_error s = Ok tt <-> error s = None) /\
  (forall s', error s' = error s -> check_error s' = check_error s).
Proof.
  split; [| split].
  - intros e; unfold check_error; destruct (error s) as [e'|]; split;
      intros H; try discriminate; congruence.
  - unfold check_error; destruct (error s); split; intros H; try discriminate; auto.
  - intros s' H; unfold check_error; rewrite H; reflexivity.
Qed.

(** C6: [is_none] is true exactly when [result] is absent, and depends on
    no other field (in particular not on [error]). *)
Theorem is_none_contract (s : Response) :
  (is_none s = true <-> result_field s = None) /\
  (forall s', result_field s' = result_field s -> is_none s' = is_none s).
Proof.
  split.
  - unfold is_none; destruct (result_field s); split; intros H; congruence.
  - intros s' H; unfold is_none; rewrite H; reflexivity.
Qed.

(** C7: every Request survives serialization and deserialization
    unchanged, field for field, an absent [jsonrpc] included. *)
Theorem request_round_trip (r : Request) :
  de_Request (ser_Request r) = Ok r.
Proof. destruct r as [m p i [j|]]; reflexivity. Qed.

(** C8 (as stated, refuted): a Response whose [result] is present but
    [null] does not survive the round trip: it comes back with [result]
    absent. *)
Lemma response_round_trip_null_result :
  let s := mkResponse (Some JNull) None (JNumber 1) (Some "2.0") in
  de_Response (ser_Response s) = Ok (mkResponse None None (JNumber 1) (Some "2.0")) /\
  de_Response (ser_Response s) <> Ok s.
Proof. cbn zeta. split; [reflexivity | discriminate]. Qed.

(** C8 (amended): the round trip of a Response gives back the Response
    with every present-but-null [Option] field ([result], and the [data] of
    the [error]) read as absent, and everything else unchanged. *)
Theorem response_round_trip (s : Response) :
  de_Response (ser_Response s) = Ok (collapse_null_Response s).
Proof.
  destruct s as [r e i j].
  unfold ser_Response; cbn [result_field error id jsonrpc].
  destruct r as [r|]; destruct e as [e|]; destruct j as [j|]; cbn;
    try rewrite de_option_json; cbn;
    try rewrite RpcError_round_trip; cbn; try reflexivity.
  all: destruct e as [c m [d|]]; cbn; try rewrite de_option_json; reflexivity.
Qed.

(** C10: the version tag is not checked: a wire object whose [jsonrpc]
    holds any string [t] decodes, as a Request or as a Response, with
    [jsonrpc = Some t]; any [method], the empty one included, is
    accepted. *)
Theorem jsonrpc_not_validated (m t : string) (p i r : Json) :
  de_Request (JObject [("method", JString m); ("params", p); ("id", i);
                       ("jsonrpc", JString t)])
    = Ok (mkRequest m p i (Some t)) /\
  de_Response (JObject [("result", r); ("error", JNull); ("id", i);
                        ("jsonrpc", JString t)])
    = Ok (mkResponse (collapse_null (Some r)) None i (Some t)) /\
  de_Request (JObject [("method", JString ""); ("params", p); ("id", i);
                       ("jsonrpc", JString t)])
    = Ok (mkRequest "" p i (Some t)).
Proof.
  split; [reflexivity | split; [| reflexivity]].
  cbn; rewrite de_option_json; reflexivity.
Qed.

(* ================================================================== *)
(** * Further properties of the derived decoders and of [impl Response] *)

(** How many entries of an object carry the key [name]. *)
Definition key_count (name : string) (kvs : list (string * Json)) : nat :=
  length (filter (fun kv => String.eqb (fst kv) name) kvs).

(** A required field: its key occurs exactly once and its value decodes
    to [x]. *)
Definition field_once {A : Type} (name : string)
  (de : Json -> result A DecodeError) (kvs : list (string * Json)) (x : A) : Prop :=
  key_count name kvs = 1 /\ exists v, In (name, v) kvs /\ de v = Ok x.

(** An [Option] field: either its key occurs exactly once and its value
    decodes to [x], or the key does not occur and [x] is [None]. *)
Definition field_at_most_once {A : Type} (name : string)
  (de : Json -> result (option A) DecodeError) (kvs : list (string * Json))
  (x : option A) : Prop :=
  field_once name de kvs x \/ (key_count name kvs = 0 /\ x = None).

(** The same, for a [visit_map] that may already have filled the slot. *)
Definition slot_req {A : Type} (name : string) (slot : option A)
  (de : Json -> result A DecodeError) (kvs : list (string * Json)) (x : A) : Prop :=
  (slot = Some x /\ key_count name kvs = 0) \/
  (slot = None /\ field_once name de kvs x).

Definition slot_opt {A : Type} (name : string) (slot : option (option A))
  (de : Json -> result (option A) DecodeError) (kvs : list (string * Json))
  (x : option A) : Prop :=
  slot_req name slot de kvs x \/
  (slot = None /\ key_count name kvs = 0 /\ x = None).

Section KeyCount.
Variable name : string.

Lemma key_count_here (v : Json) (rest : list (string * Json)) :
  key_count name ((name, v) :: rest) = S (key_count name rest).
Proof. unfold key_count; cbn; rewrite String.eqb_refl; reflexivity. Qed.

Lemma key_count_other (k : string) (v : Json) (rest : list (string * Json)) :
  k <> name -> key_count name ((k, v) :: rest) = key_count name rest.
Proof.
  intros Hk; unfold key_count; cbn.
  destruct (String.eqb_spec k name); [contradiction | reflexivity].
Qed.

Lemma key_count_zero_not_in (kvs : list (string * Json)) (v : Json) :
  key_count name kvs = 0 -> ~ In (name, v) kvs.
Proof.
  induction kvs as [| [k w] rest IH]; cbn; [tauto |].
  unfold key_count; cbn.
  destruct (String.eqb_spec k name) as [->|Hk]; cbn; [discriminate |].
  intros H [Heq | Hin]; [congruence | exact (IH H Hin)].
Qed.

Lemma key_count_perm (kvs kvs2 : list (string * Json)) :
  Permutation kvs kvs2 -> key_count name kvs = key_count name kvs2.
Proof.
  unfold key_count; induction 1 as [| kv l1 l2 _ IH | kv kv2 l | l1 l2 l3 _ IH1 _ IH2];
    cbn; try reflexivity.
  - destruct (String.eqb (fst kv) name); cbn; congruence.
  - destruct (String.eqb (fst kv) name), (String.eqb (fst kv2) name); reflexivity.
  - congruence.
Qed.

End KeyCount.

Section FieldLemmas.
Context {A : Type} (name : string) (de : Json -> result A DecodeError).

Lemma field_once_perm (kvs kvs2 : list (string * Json)) (x : A) :
  Permutation kvs kvs2 -> field_once name de kvs x -> field_once name de kvs2 x.
Proof.
  intros Hp [Hc [v [Hin Hv]]]; split.
  - rewrite <- (key_count_perm name _ _ Hp); exact Hc.
  - exists v; split; [exact (Permutation_in _ Hp Hin) | exact Hv].
Qed.

Lemma slot_req_nil (slot : option A) (x : A) :
  slot_req name slot de [] x <-> slot = Some x.
Proof.
  unfold slot_req, field_once; cbn; split.
  - intros [[H _] | [_ [H _]]]; [exact H | discriminate].
  - intros H; left; auto.
Qed.

Lemma slot_req_other (slot : option A) (k : string) (v : Json)
  (rest : list (string * Json)) (x : A) :
  k <> name -> slot_req name slot de ((k, v) :: rest) x <-> slot_req name slot de rest x.
Proof.
  intros Hk; unfold slot_req, field_once; rewrite (key_count_other name k v rest Hk).
  split; intros [[H1 H2] | [H1 [H2 [w [Hin Hw]]]]]; auto; right; split; auto;
    split; auto; exists w; split; auto.
  - destruct Hin as [Heq | Hin]; [congruence | exact Hin].
  - right; exact Hin.
Qed.

Lemma slot_req_here (slot : option A) (v : Json) (rest : list (string * Json)) (x : A) :
  slot_req name slot de ((name, v) :: rest) x <->
  slot = None /\ de v = Ok x /\ key_count name rest = 0.
Proof.
  unfold slot_req, field_once; rewrite key_count_here; split.
  - intros [[_ H] | [Hs [Hc [w [[Heq | Hin] Hw]]]]]; [discriminate | |].
    + injection Heq as <-; auto.
    + injection Hc as Hc; destruct (key_count_zero_not_in name rest w Hc Hin).
  - intros [Hs [Hv Hc]]; right; split; [exact Hs |]; split; [rewrite Hc; reflexivity |].
    exists v; split; [left; reflexivity | exact Hv].
Qed.

Lemma slot_req_some (y : A) (kvs : list (string * Json)) (x : A) :
  slot_req name (Some y) de kvs x <-> y = x /\ key_count name kvs = 0.
Proof.
  unfold slot_req; split.
  - intros [[H1 H2] | [H _]]; [injection H1; auto | discriminate].
  - intros [-> H]; left; auto.
Qed.

End FieldLemmas.

Section OptFieldLemmas.
Context {A : Type} (name : string) (de : Json -> result (option A) DecodeError).

Lemma slot_opt_nil (slot : option (option A)) (x : option A) :
  slot_opt name slot de [] x <-> optional slot = x.
Proof.
  unfold slot_opt; rewrite slot_req_nil; destruct slot; cbn; split.
  - intros [H | [H _]]; [congruence | discriminate].
  - intros ->; left; reflexivity.
  - intros [H | [_ [_ H]]]; [discriminate | auto].
  - intros <-; right; auto.
Qed.

Lemma slot_opt_other (slot : option (option A)) (k : string) (v : Json)
  (rest : list (string * Json)) (x : option A) :
  k <> name -> slot_opt name slot de ((k, v) :: rest) x <-> slot_opt name slot de rest x.
Proof.
  intros Hk; unfold slot_opt; rewrite (slot_req_other name de slot k v rest x Hk).
  rewrite (key_count_other name k v rest Hk); tauto.
Qed.

Lemma slot_opt_here (slot : option (option A)) (v : Json)
  (rest : list (string * Json)) (x : option A) :
  slot_opt name slot de ((name, v) :: rest) x <->
  slot = None /\ de v = Ok x /\ key_count name rest = 0.
Proof.
  unfold slot_opt; rewrite slot_req_here, key_count_here.
  split; [intros [H | [_ [H _]]]; [exact H | discriminate] | intros H; left; exact H].
Qed.

Lemma slot_opt_some (y : option A) (kvs : list (string * Json)) (x : option A) :
  slot_opt name (Some y) de kvs x <-> y = x /\ key_count name kvs = 0.
Proof.
  unfold slot_opt; rewrite slot_req_some.
  split; [intros [H | [H _]]; [exact H | discriminate] | intros H; left; exact H].
Qed.

Lemma slot_opt_none (kvs : list (string * Json)) (x : option A) :
  slot_opt name None de kvs x <-> field_at_most_once name de kvs x.
Proof.
  unfold slot_opt, slot_req, field_at_most_once; split.
  - intros [[[H _] | [_ H]] | [_ H]]; [discriminate | left | right]; exact H.
  - intros [H | H]; [left; right | right]; auto.
Qed.

End OptFieldLemmas.

Lemma slot_req_none {A : Type} (name : string) (de : Json -> result A DecodeError)
  (kvs : list (string * Json)) (x : A) :
  slot_req name None de kvs x <-> field_once name de kvs x.
Proof.
  unfold slot_req; split.
  - intros [[H _] | [_ H]]; [discriminate | exact H].
  - intros H; right; auto.
Qed.

Lemma field_at_most_once_perm {A : Type} (name : string)
  (de : Json -> result (option A) DecodeError) (kvs kvs2 : list (string * Json))
  (x : option A) :
  Permutation kvs kvs2 -> field_at_most_once name de kvs x ->
  field_at_most_once name de kvs2 x.
Proof.
  intros Hp [H | [Hc Hx]]; [left; exact (field_once_perm name de _ _ x Hp H) |].
  right; rewrite <- (key_count_perm name _ _ Hp); auto.
Qed.

Lemma bind_ok {A B E : Type} (r : result A E) (k : A -> result B E) (b : B) :
  bind_result r k = Ok b <-> exists a, r = Ok a /\ k a = Ok b.
Proof.
  destruct r as [a|e]; cbn; split.
  - intros H; exists a; auto.
  - intros [a' [H1 H2]]; injection H1 as <-; exact H2.
  - discriminate.
  - intros [a' [H _]]; discriminate.
Qed.

Lemma store_ok {A B : Type} (name : string) (slot : option A)
  (de : Json -> result A DecodeError) (v : Json)
  (k : option A -> result B DecodeError) (b : B) :
  store name slot de v k = Ok b <->
  slot = None /\ exists x, de v = Ok x /\ k (Some x) = Ok b.
Proof.
  destruct slot; cbn; [split; [discriminate | intros [H _]; discriminate] |].
  rewrite bind_ok; split; [intros H; auto | intros [_ H]; exact H].
Qed.

Ltac other_keys :=
  repeat first
    [ rewrite slot_req_other by (first [assumption | intros ?; subst; discriminate])
    | rewrite slot_opt_other by (first [assumption | intros ?; subst; discriminate]) ].

(** One step of [visit_map] on the key of the field it fills. *)
Ltac field_step X :=
  split;
  [ let Hs := fresh in let x := fresh in let Hx := fresh in let H := fresh in
    intros [Hs [x [Hx H]]]; decompose [and] H; subst x;
    repeat split; try reflexivity; assumption
  | let H := fresh in
    intros H; decompose [and] H; split;
    [ assumption | exists X; repeat split; try reflexivity; assumption ] ].

Lemma visit_Request_spec (kvs : list (string * Json)) (m : option string)
  (p i : option Json) (j : option (option string)) (r : Request) :
  visit_Request kvs m p i j = Ok r <->
  slot_req "method" m de_string kvs (method r) /\
  slot_req "params" p de_json kvs (params r) /\
  slot_req "id" i de_json kvs (req_id r) /\
  slot_opt "jsonrpc" j (de_option de_string) kvs (req_jsonrpc r).
Proof.
  revert m p i j; induction kvs as [| [k v] rest IH]; intros m p i j.
  - cbn [visit_Request]; rewrite !slot_req_nil, slot_opt_nil.
    destruct r as [rm rp ri rj]; cbn.
    destruct m, p, i; cbn; split; try discriminate;
      try (intros [H _]; discriminate); try (intros [_ [H _]]; discriminate);
      try (intros [_ [_ [H _]]]; discriminate).
    + intros H; injection H as <- <- <- <-; auto.
    + intros [H1 [H2 [H3 H4]]]; congruence.
  - cbn [visit_Request].
    destruct (String.eqb_spec k "method") as [->|Hm]; [|
    destruct (String.eqb_spec k "params") as [->|Hp]; [|
    destruct (String.eqb_spec k "id") as [->|Hi]; [|
    destruct (String.eqb_spec k "jsonrpc") as [->|Hj]]]].
    + rewrite store_ok, slot_req_here; other_keys.
      setoid_rewrite IH; setoid_rewrite slot_req_some; field_step (method r).
    + rewrite store_ok, slot_req_here; other_keys.
      setoid_rewrite IH; setoid_rewrite slot_req_some; field_step (params r).
    + rewrite store_ok, slot_req_here; other_keys.
      setoid_rewrite IH; setoid_rewrite slot_req_some; field_step (req_id r).
    + rewrite store_ok, slot_opt_here; other_keys.
      setoid_rewrite IH; setoid_rewrite slot_opt_some; field_step (req_jsonrpc r).
    + rewrite IH; other_keys; reflexivity.
Qed.

Lemma visit_RpcError_spec (kvs : list (string * Json)) (c : option Z)
  (m : option string) (d : option (option Json)) (e : RpcError) :
  visit_RpcError kvs c m d = Ok e <->
  slot_req "code" c de_int kvs (code e) /\
  slot_req "message" m de_string kvs (message e) /\
  slot_opt "data" d (de_option de_json) kvs (data e).
Proof.
  revert c m d; induction kvs as [| [k v] rest IH]; intros c m d.
  - cbn [visit_RpcError]; rewrite !slot_req_nil, slot_opt_nil.
    destruct e as [ec em ed]; cbn.
    destruct c, m; cbn; split; try discriminate;
      try (intros [H _]; discriminate); try (intros [_ [H _]]; discriminate).
    + intros H; injection H as <- <- <-; auto.
    + intros [H1 [H2 H3]]; congruence.
  - cbn [visit_RpcError].
    destruct (String.eqb_spec k "code") as [->|Hc]; [|
    destruct (String.eqb_spec k "message") as [->|Hm]; [|
    destruct (String.eqb_spec k "data") as [->|Hd]]].
    + rewrite store_ok, slot_req_here; other_keys.
      setoid_rewrite IH; setoid_rewrite slot_req_some; field_step (code e).
    + rewrite store_ok, slot_req_here; other_keys.
      setoid_rewrite IH; setoid_rewrite slot_req_some; field_step (message e).
    + rewrite store_ok, slot_opt_here; other_keys.
      setoid_rewrite IH; setoid_rewrite slot_opt_some; field_step (data e).
    + rewrite IH; other_keys; reflexivity.
Qed.

Lemma visit_Response_spec (kvs : list (string * Json)) (r : option (option Json))
  (e : option (option RpcError)) (i : option Json) (j : option (option string))
  (s : Response) :
  visit_Response kvs r e i j = Ok s <->
  slot_opt "result" r (de_option de_json) kvs (result_field s) /\
  slot_opt "error" e (de_option de_RpcError) kvs (error s) /\
  slot_req "id" i de_json kvs (id s) /\
  slot_opt "jsonrpc" j (de_option de_string) kvs (jsonrpc s).
Proof.
  revert r e i j; induction kvs as [| [k v] rest IH]; intros r e i j.
  - cbn [visit_Response]; rewrite slot_req_nil, !slot_opt_nil.
    destruct s as [sr se si sj]; cbn.
    destruct i; cbn; split; try discriminate;
      try (intros [_ [_ [H _]]]; discriminate).
    + intros H; injection H as <- <- <- <-; auto.
    + intros [H1 [H2 [H3 H4]]]; congruence.
  - cbn [visit_Response].
    destruct (String.eqb_spec k "result") as [->|Hr]; [|
    destruct (String.eqb_spec k "error") as [->|He]; [|
    destruct (String.eqb_spec k "id") as [->|Hi]; [|
    destruct (String.eqb_spec k "jsonrpc") as [->|Hj]]]].
    + rewrite store_ok, slot_opt_here; other_keys.
      setoid_rewrite IH; setoid_rewrite slot_opt_some; field_step (result_field s).
    + rewrite store_ok, slot_opt_here; other_keys.
      setoid_rewrite IH; setoid_rewrite slot_opt_some; field_step (error s).
    + rewrite store_ok, slot_req_here; other_keys.
      setoid_rewrite IH; setoid_rewrite slot_req_some; field_step (id s).
    + rewrite store_ok, slot_opt_here; other_keys.
      setoid_rewrite IH; setoid_rewrite slot_opt_some; field_step (jsonrpc s).
    + rewrite IH; other_keys; reflexivity.
Qed.

Lemma de_option_json_null_free (v : Json) (x : option Json) :
  de_option de_json v = Ok x -> x <> Some JNull.
Proof. destruct v; cbn; intros H; injection H as <-; discriminate. Qed.

Lemma visit_RpcError_null_free (kvs : list (string * Json)) (e : RpcError) :
  visit_RpcError kvs None None None = Ok e -> data e <> Some JNull.
Proof.
  rewrite visit_RpcError_spec, !slot_req_none, slot_opt_none.
  intros [_ [_ [[_ [v [_ Hv]]] | [_ ->]]]]; [exact (de_option_json_null_free v _ Hv) |].
  discriminate.
Qed.

Lemma de_ser_Response (s : Response) :
  de_Response (ser_Response s) = Ok (collapse_null_Response s).
Proof.
  destruct s as [[r|] [[c m [d|]]|] i [j|]]; cbn;
    repeat rewrite de_option_json; reflexivity.
Qed.

Lemma ser_collapse_null_Response (s : Response) :
  ser_Response (collapse_null_Response s) = ser_Response s.
Proof.
  destruct s as [[[]|] [[c m [[]|]]|] i j]; reflexivity.
Qed.

(** X1: a wire object decodes to the Request [r] exactly when
    [method], [params] and [id] each occur in it exactly once with a value
    decoding to the field of [r], and [jsonrpc] occurs at most once (absent
    meaning [None]); any other keys are ignored. *)
Theorem request_decode_iff (kvs : list (string * Json)) (r : Request) :
  de_Request (JObject kvs) = Ok r <->
    field_once "method" de_string kvs (method r) /\
    field_once "params" de_json kvs (params r) /\
    field_once "id" de_json kvs (req_id r) /\
    field_at_most_once "jsonrpc" (de_option de_string) kvs (req_jsonrpc r).
Proof.
  cbn [de_Request]; rewrite visit_Request_spec, !slot_req_none, slot_opt_none.
  reflexivity.
Qed.

(** X2: a wire object decodes to the Response [s] exactly when [id]
    occurs in it exactly once, and [result], [error] and [jsonrpc] occur at
    most once (absent meaning [None]), each value decoding to the field of
    [s]; any other keys are ignored. *)
Theorem response_decode_iff (kvs : list (string * Json)) (s : Response) :
  de_Response (JObject kvs) = Ok s <->
    field_at_most_once "result" (de_option de_json) kvs (result_field s) /\
    field_at_most_once "error" (de_option de_RpcError) kvs (error s) /\
    field_once "id" de_json kvs (id s) /\
    field_at_most_once "jsonrpc" (de_option de_string) kvs (jsonrpc s).
Proof.
  cbn [de_Response]; rewrite visit_Response_spec, slot_req_none, !slot_opt_none.
  reflexivity.
Qed.

(** X3: a wire object decodes to the RpcError [e] exactly when [code] and
    [message] occur in it exactly once and [data] at most once, each value
    decoding to the field of [e]; any other keys are ignored. *)
Theorem rpc_error_decode_iff (kvs : list (string * Json)) (e : RpcError) :
  de_RpcError (JObject kvs) = Ok e <->
    field_once "code" de_int kvs (code e) /\
    field_once "message" de_string kvs (message e) /\
    field_at_most_once "data" (de_option de_json) kvs (data e).
Proof.
  cbn [de_RpcError]; rewrite visit_RpcError_spec, !slot_req_none, slot_opt_none.
  reflexivity.
Qed.

(** X4: the order of the entries of a Request object does not matter to a
    successful decode. *)
Theorem request_decode_perm (kvs kvs2 : list (string * Json)) (r : Request)
  (Hp : Permutation kvs kvs2) :
  de_Request (JObject kvs) = Ok r -> de_Request (JObject kvs2) = Ok r.
Proof.
  cbn; rewrite !visit_Request_spec, !slot_req_none, !slot_opt_none.
  intros [H1 [H2 [H3 H4]]].
  split; [exact (field_once_perm _ _ _ _ _ Hp H1) |].
  split; [exact (field_once_perm _ _ _ _ _ Hp H2) |].
  split; [exact (field_once_perm _ _ _ _ _ Hp H3) |].
  exact (field_at_most_once_perm _ _ _ _ _ Hp H4).
Qed.

Lemma request_decode_perm_witness :
  Permutation
    [("method", JString "test"); ("params", JNull); ("id", JNumber 69); ("x", JNull)]
    [("x", JNull); ("id", JNumber 69); ("params", JNull); ("method", JString "test")] /\
  de_Request (JObject [("x", JNull); ("id", JNumber 69); ("params", JNull);
                       ("method", JString "test")])
    = Ok (mkRequest "test" JNull (JNumber 69) None).
Proof.
  assert (Hp : Permutation
    [("method", JString "test"); ("params", JNull); ("id", JNumber 69); ("x", JNull)]
    [("x", JNull); ("id", JNumber 69); ("params", JNull); ("method", JString "test")]).
  { apply Permutation_rev. }
  split; [exact Hp |].
  apply (request_decode_perm _ _ _ Hp); reflexivity.
Defined.

(** X5: the order of the entries of a Response object does not matter to
    a successful decode. *)
Theorem response_decode_perm (kvs kvs2 : list (string * Json)) (s : Response)
  (Hp : Permutation kvs kvs2) :
  de_Response (JObject kvs) = Ok s -> de_Response (JObject kvs2) = Ok s.
Proof.
  cbn; rewrite !visit_Response_spec, !slot_req_none, !slot_opt_none.
  intros [H1 [H2 [H3 H4]]].
  split; [exact (field_at_most_once_perm _ _ _ _ _ Hp H1) |].
  split; [exact (field_at_most_once_perm _ _ _ _ _ Hp H2) |].
  split; [exact (field_once_perm _ _ _ _ _ Hp H3) |].
  exact (field_at_most_once_perm _ _ _ _ _ Hp H4).
Qed.

Lemma response_decode_perm_witness :
  Permutation [("id", JNumber 7); ("result", JBool true)]
              [("result", JBool true); ("id", JNumber 7)] /\
  de_Response (JObject [("result", JBool true); ("id", JNumber 7)])
    = Ok (mkResponse (Some (JBool true)) None (JNumber 7) None).
Proof.
  assert (Hp : Permutation [("id", JNumber 7); ("result", JBool true)]
                           [("result", JBool true); ("id", JNumber 7)]).
  { apply perm_swap. }
  split; [exact Hp |].
  apply (response_decode_perm _ _ _ Hp); reflexivity.
Defined.

(** X6: two Responses serialize to the same wire value exactly when they
    agree after a present-but-null [result] or error [data] is read as
    absent: that is all the serialization forgets. *)
Theorem ser_Response_eq_iff (s1 s2 : Response) :
  ser_Response s1 = ser_Response s2 <->
  collapse_null_Response s1 = collapse_null_Response s2.
Proof.
  split.
  - intros H; assert (Hd := f_equal de_Response H).
    rewrite !de_ser_Response in Hd; congruence.
  - intros H; rewrite <- (ser_collapse_null_Response s1),
      <- (ser_collapse_null_Response s2), H; reflexivity.
Qed.

(** X7: [check_error] and the extractors agree on the daemon's error:
    when [check_error] fails, [result] and [into_result] fail with the same
    error; when it succeeds, neither of them returns an [Error::Rpc]. *)
Theorem check_error_result_agree (T : Type) (de : Json -> result T DecodeError)
  (s : Response) :
  (forall err, check_error s = Err err ->
     result_ T de s = Err err /\ into_result T de s = Err err) /\
  (check_error s = Ok tt -> forall e,
     result_ T de s <> Err (Error_Rpc e) /\ into_result T de s <> Err (Error_Rpc e)).
Proof.
  destruct s as [[r|] [e|] i j]; cbn; split;
    try (intros err H; injection H as <-; split; reflexivity);
    try (intros H; discriminate); intros _ e'.
  - destruct (de r); cbn; split; discriminate.
  - split; discriminate.
Qed.

(** Case on every decoder call of an array visitor. *)
Ltac bind_cases H :=
  repeat match type of H with
  | context [bind_result ?r _] =>
      let Hr := fresh "Hr" in
      destruct r eqn:Hr; cbn [bind_result] in H; try discriminate H
  end.

Lemma de_RpcError_null_free (v : Json) (e : RpcError) :
  de_RpcError v = Ok e -> data e <> Some JNull.
Proof.
  destruct v as [| | | | vs | kvs]; cbn [de_RpcError]; try discriminate.
  - unfold visit_seq_RpcError; intros H.
    destruct vs as [| c [| m [| d rest]]]; cbn [next_element] in H;
      try discriminate H; bind_cases H.
    destruct rest; cbn in H; [| discriminate H].
    injection H as <-; cbn; eapply de_option_json_null_free; eassumption.
  - exact (visit_RpcError_null_free kvs e).
Qed.

Lemma de_option_RpcError_null_free (v : Json) (oe : option RpcError) (e : RpcError) :
  de_option de_RpcError v = Ok oe -> oe = Some e -> data e <> Some JNull.
Proof.
  destruct v; cbn [de_option];
    try (intros H; injection H as <-; discriminate);
    (destruct (de_RpcError _) as [e2|] eqn:He; cbn; [| discriminate]);
    intros H; injection H as <-; intros H; injection H as ->;
    exact (de_RpcError_null_free _ _ He).
Qed.

(** X8: a Response obtained by decoding (from an object or from an array)
    never holds a present-but-null [result] or a present-but-null error
    [data]: the decoder reads [null] as absent. *)
Theorem decoded_response_null_free (w : Json) (s : Response)
  (Hde : de_Response w = Ok s) :
  result_field s <> Some JNull /\
  (forall e, error s = Some e -> data e <> Some JNull).
Proof.
  destruct w as [| | | | vs | kvs]; try discriminate Hde.
  - cbn [de_Response] in Hde; unfold visit_seq_Response in Hde.
    destruct vs as [| r [| e [| i [| j rest]]]]; cbn [next_element] in Hde;
      try discriminate Hde; bind_cases Hde.
    destruct rest; cbn in Hde; [| discriminate Hde]; injection Hde as <-; cbn.
    split; [eapply de_option_json_null_free; eassumption |].
    intros e2 H2; eapply de_option_RpcError_null_free; eassumption.
  - cbn in Hde; apply visit_Response_spec in Hde.
    rewrite !slot_opt_none in Hde.
    destruct Hde as [Hr [He _]]; split.
    + destruct Hr as [[_ [v [_ Hv]]] | [_ ->]]; [exact (de_option_json_null_free v _ Hv) |].
      discriminate.
    + intros e Hs; rewrite Hs in He.
      destruct He as [[_ [v [_ Hv]]] | [_ H]]; [| discriminate].
      exact (de_option_RpcError_null_free v _ e Hv eq_refl).
Qed.

Lemma decoded_response_null_free_witness :
  let w := JObject [("result", JNull); ("error", JNull); ("id", JNumber 5)] in
  de_Response w = Ok (mkResponse None None (JNumber 5) None) /\
  result_field (mkResponse None None (JNumber 5) None) <> Some JNull.
Proof.
  cbn zeta.
  assert (H : de_Response (JObject [("result", JNull); ("error", JNull); ("id", JNumber 5)])
              = Ok (mkResponse None None (JNumber 5) None)) by reflexivity.
  split; [exact H | exact (proj1 (decoded_response_null_free _ _ H))].
Defined.

Lemma key_count_one_unique (name : string) (kvs : list (string * Json))
  (v1 v2 : Json) :
  key_count name kvs = 1 -> In (name, v1) kvs -> In (name, v2) kvs -> v1 = v2.
Proof.
  induction kvs as [| [k w] rest IH]; cbn [In]; [discriminate |].
  destruct (String.eqb_spec k name) as [->|Hk].
  - rewrite key_count_here; intros Hc; injection Hc as Hc.
    intros [H1 | H1] [H2 | H2]; try congruence;
      exfalso; (eapply (key_count_zero_not_in name rest); [exact Hc | eassumption]).
  - rewrite (key_count_other name k w rest Hk); intros Hc [H1 | H1] [H2 | H2];
      try congruence; exact (IH Hc H1 H2).
Qed.

(** X9: for a decoded daemon reply without an error, [result] and
    [into_result] fail with [NoErrorOrResult] exactly when the reply's
    [result] entry is missing or [null]; otherwise they decode it. *)
Theorem decoded_reply_no_result (T : Type) (de : Json -> result T DecodeError)
  (kvs : list (string * Json)) (s : Response)
  (Hde : de_Response (JObject kvs) = Ok s) (Herr : error s = None) :
  (result_ T de s = Err Error_NoErrorOrResult <->
     key_count "result" kvs = 0 \/ In ("result", JNull) kvs) /\
  (into_result T de s = Err Error_NoErrorOrResult <->
     key_count "result" kvs = 0 \/ In ("result", JNull) kvs).
Proof.
  cbn in Hde; apply visit_Response_spec in Hde.
  rewrite slot_opt_none in Hde; destruct Hde as [Hr _].
  destruct s as [r e i j]; cbn in Herr, Hr |- *; subst e.
  assert (Hiff : r = None <-> key_count "result" kvs = 0 \/ In ("result", JNull) kvs).
  { destruct Hr as [[Hc [v [Hin Hv]]] | [Hc ->]].
    - split.
      + intros ->; right; destruct v; cbn in Hv; try discriminate; exact Hin.
      + intros [H0 | Hnull]; [congruence |].
        rewrite (key_count_one_unique "result" kvs v JNull Hc Hin Hnull) in Hv.
        injection Hv as <-; reflexivity.
    - split; [intros _; left; exact Hc | intros _; reflexivity]. }
  rewrite <- Hiff.
  assert (Hres : match r with
                 | Some res => map_err Error_Json (de res)
                 | None => Err Error_NoErrorOrResult
                 end = Err Error_NoErrorOrResult <-> r = None).
  { destruct r as [res|]; [| split; reflexivity].
    destruct (de res); cbn; split; discriminate. }
  split; exact Hres.
Qed.

Lemma decoded_reply_no_result_witness :
  de_Response (JObject [("result", JNull); ("id", JNumber 3)])
    = Ok (mkResponse None None (JNumber 3) None) /\
  error (mkResponse None None (JNumber 3) None) = None /\
  result_ _ de_json (mkResponse None None (JNumber 3) None) = Err Error_NoErrorOrResult.
Proof.
  assert (Hde : de_Response (JObject [("result", JNull); ("id", JNumber 3)])
                = Ok (mkResponse None None (JNumber 3) None)) by reflexivity.
  split; [exact Hde | split; [reflexivity |]].
  apply (proj1 (decoded_reply_no_result _ de_json _ _ Hde eq_refl)).
  right; left; reflexivity.
Defined.

Lemma field_once_count {A : Type} (name : string) (de : Json -> result A DecodeError)
  (kvs : list (string * Json)) (x : A) :
  field_once name de kvs x -> key_count name kvs <= 1.
Proof. intros [H _]; rewrite H; constructor. Qed.

Lemma field_at_most_once_count {A : Type} (name : string)
  (de : Json -> result (option A) DecodeError) (kvs : list (string * Json))
  (x : option A) :
  field_at_most_once name de kvs x -> key_count name kvs <= 1.
Proof.
  intros [H | [H _]]; [exact (field_once_count _ _ _ _ H) | rewrite H; repeat constructor].
Qed.

(** X10: a Request object in which one of the fields [method], [params],
    [id], [jsonrpc] occurs more than once never decodes. *)
Theorem request_duplicate_field_rejected (kvs : list (string * Json))
  (name : string) (r : Request)
  (Hname : In name ["method"; "params"; "id"; "jsonrpc"])
  (Hdup : 2 <= key_count name kvs) :
  de_Request (JObject kvs) <> Ok r.
Proof.
  cbn; rewrite visit_Request_spec, !slot_req_none, slot_opt_none.
  intros [H1 [H2 [H3 H4]]].
  apply field_once_count in H1, H2, H3; apply field_at_most_once_count in H4.
  destruct Hname as [<- | [<- | [<- | [<- | []]]]]; lia.
Qed.

Lemma request_duplicate_field_rejected_witness :
  In "id" ["method"; "params"; "id"; "jsonrpc"] /\
  2 <= key_count "id" [("method", JString "m"); ("params", JNull);
                       ("id", JNumber 1); ("id", JNumber 2)] /\
  de_Request (JObject [("method", JString "m"); ("params", JNull);
                       ("id", JNumber 1); ("id", JNumber 2)])
    <> Ok (mkRequest "m" JNull (JNumber 1) None).
Proof.
  assert (Hin : In "id" ["method"; "params"; "id"; "jsonrpc"])
    by (right; right; left; reflexivity).
  assert (Hc : 2 <= key_count "id" [("method", JString "m"); ("params", JNull);
                                    ("id", JNumber 1); ("id", JNumber 2)])
    by (cbn; constructor).
  split; [exact Hin | split; [exact Hc |]].
  exact (request_duplicate_field_rejected _ _ _ Hin Hc).
Defined.

(** X11: a Response object in which one of the fields [result], [error],
    [id], [jsonrpc] occurs more than once never decodes. *)
Theorem response_duplicate_field_rejected (kvs : list (string * Json))
  (name : string) (s : Response)
  (Hname : In name ["result"; "error"; "id"; "jsonrpc"])
  (Hdup : 2 <= key_count name kvs) :
  de_Response (JObject kvs) <> Ok s.
Proof.
  cbn; rewrite visit_Response_spec, slot_req_none, !slot_opt_none.
  intros [H1 [H2 [H3 H4]]].
  apply field_at_most_once_count in H1, H2, H4; apply field_once_count in H3.
  destruct Hname as [<- | [<- | [<- | [<- | []]]]]; lia.
Qed.

Lemma response_duplicate_field_rejected_witness :
  In "result" ["result"; "error"; "id"; "jsonrpc"] /\
  2 <= key_count "result" [("result", JNull); ("result", JBool true); ("id", JNull)] /\
  de_Response (JObject [("result", JNull); ("result", JBool true); ("id", JNull)])
    <> Ok (mkResponse (Some (JBool true)) None JNull None).
Proof.
  assert (Hin : In "result" ["result"; "error"; "id"; "jsonrpc"]) by (left; reflexivity).
  assert (Hc : 2 <= key_count "result" [("result", JNull); ("result", JBool true);
                                        ("id", JNull)])
    by (cbn; constructor).
  split; [exact Hin | split; [exact Hc |]].
  exact (response_duplicate_field_rejected _ _ _ Hin Hc).
Defined.
